(** * Availability checker: the probing engine of [availability-checker/checker.py]

    A shallow embedding of the class [ServiceChecker] and of the parts of the
    Python runtime its methods lean on (the clock, [datetime.isoformat],
    [try]/[except] dispatch, [asyncio.gather]), followed by the properties of
    the probing engine.

    Conventions.
    - The clock is an integer count of microseconds since the Unix epoch, UTC.
      [time.time()] and [datetime.utcnow()] both read it; reading does not
      advance it, waiting on the network does. Floating point is not
      modelled: durations are exact.
    - Python dictionaries with a fixed set of keys are records; [None] is
      [None] of an [option].
    - What the network does is not computed: it is an input ([ClientSession],
      [Exchange]) that the theorems quantify over.
    - Exceptions are the instances of [Exception]. Signals that derive from
      [BaseException] only (task cancellation, interpreter shutdown) are not
      outcomes of an HTTP attempt and are outside the model.
    - The [logger] calls write to a side channel and touch neither the result
      nor the checker; they are left out. *)

From Stdlib Require Import ZArith Ascii String List Lia.
From stdpp Require Import base tactics option list strings.

Local Open Scope string_scope.
Local Open Scope Z_scope.

(** ** The Python runtime, as far as the checker uses it *)

(** [datetime]: a naive calendar date and time, as [datetime.utcnow()] builds
    it from the clock, and its ISO 8601 rendering. *)
Module datetime.

Record t := mk
  { year : Z; month : Z; day : Z;
    hour : Z; minute : Z; second : Z; microsecond : Z }.

(** Gregorian date of a day number counted from 1970-01-01. *)
Definition civil_from_days (days : Z) : Z * Z * Z :=
  let z := days + 719468 in
  let era := z / 146097 in
  let doe := z - era * 146097 in
  let yoe := (doe - doe / 1460 + doe / 36524 - doe / 146096) / 365 in
  let doy := doe - (365 * yoe + yoe / 4 - yoe / 100) in
  let mp := (5 * doy + 2) / 153 in
  let d := doy - (153 * mp + 2) / 5 + 1 in
  let m := if mp <? 10 then mp + 3 else mp - 9 in
  let y := yoe + era * 400 + (if m <=? 2 then 1 else 0) in
  (y, m, d).

(** [datetime.utcfromtimestamp], on a clock in microseconds. *)
Definition utcfromtimestamp (clock : Z) : t :=
  let secs := clock / 1000000 in
  let '(y, m, d) := civil_from_days (secs / 86400) in
  let sod := secs mod 86400 in
  {| year := y; month := m; day := d;
     hour := sod / 3600; minute := (sod mod 3600) / 60; second := sod mod 60;
     microsecond := clock mod 1000000 |}.

(** [datetime.utcnow()] when the clock shows [clock]. *)
Definition utcnow (clock : Z) : t := utcfromtimestamp clock.

Definition digit (n : Z) : ascii := ascii_of_nat (48 + Z.to_nat (n mod 10)).

(** ["%0<width>d" % n] for a non-negative [n] that fits in [width] digits. *)
Fixpoint zero_padded (width : nat) (n : Z) : string :=
  match width with
  | O => EmptyString
  | S w => zero_padded w (n / 10) +:+ String (digit n) EmptyString
  end.

(** [datetime.isoformat()]: the fraction is printed only when it is not
    zero. *)
Definition isoformat (d : t) : string :=
  zero_padded 4 (year d) +:+ "-" +:+ zero_padded 2 (month d) +:+ "-" +:+
  zero_padded 2 (day d) +:+ "T" +:+ zero_padded 2 (hour d) +:+ ":" +:+
  zero_padded 2 (minute d) +:+ ":" +:+ zero_padded 2 (second d) +:+
  (if microsecond d =? 0 then EmptyString else "." +:+ zero_padded 6 (microsecond d)).

End datetime.

(** The built-in functions the checker calls. *)
Module py.

Definition len {A : Type} (l : list A) : Z := Z.of_nat (length l).

Definition sum (l : list Z) : Z := foldr Z.add 0 l.

(** [round(ms, 2)] of a duration given in microseconds, in hundredths of a
    millisecond; ties go to the even neighbour. *)
Definition round2 (us : Z) : Z :=
  let q := us / 10 in
  let r := us mod 10 in
  if r <? 5 then q
  else if 5 <? r then q + 1
  else if Z.even q then q else q + 1.

End py.

(** An instance of [Exception], seen through what the handlers of
    [check_service] ask of it: the two [isinstance] tests and [str(e)].
    aiohttp's [ServerTimeoutError] passes both tests. *)
Record PyException := mkExc
  { isinstance_TimeoutError : bool;
    isinstance_ClientError : bool;
    str : string }.

(** How a block of statements ends. *)
Inductive Completion (A : Type) : Type :=
| Return (a : A)
| Raise (e : PyException).
Arguments Return {A} a.
Arguments Raise {A} e.

(** An [except C as e: ...] clause over a mutable value of type [S]: the class
    test and the handler body. *)
Definition ExceptClause (S : Type) : Type :=
  ((PyException → bool) * (PyException → S → S))%type.

(** The clauses are tried in order; the first whose class matches runs, and an
    exception no clause matches propagates. *)
Fixpoint except {S : Type} (clauses : list (ExceptClause S))
    (e : PyException) (s : S) : Completion S :=
  match clauses with
  | [] => Raise e
  | (matches, handler) :: rest =>
      if matches e then Return (handler e s) else except rest e s
  end.

(** [try: body except ...] on a value [s] that the body leaves alone when it
    raises. *)
Definition try_except {S : Type} (body : Completion S) (s : S)
    (clauses : list (ExceptClause S)) : Completion S :=
  match body with
  | Return s' => Return s'
  | Raise e => except clauses e s
  end.

(** ** [asyncio.gather] *)

(** The tasks of one [gather], reduced to what each finishes with; the child
    futures ([None] while pending, the result once done); and the outer
    future the caller awaits. A child that finishes with an exception settles
    the outer future with it; when the last child finishes, the outer future
    is settled with the results read off the children in the order the tasks
    were given. *)
Section gather.
Context {A : Type}.

Record Gathering := mkGathering
  { children : list (option A);
    outer : option (Completion (list A)) }.

(** [gather()] of no task is settled with the empty list at once. *)
Definition gather_start (coros : list (Completion A)) : Gathering :=
  {| children := replicate (length coros) None;
     outer := match coros with [] => Some (Return []) | _ => None end |}.

(** Task [i] finishes. Nothing happens for a task that is not pending or
    once the outer future is settled. *)
Definition done_callback (coros : list (Completion A)) (g : Gathering)
    (i : nat) : Gathering :=
  match outer g with
  | Some _ => g
  | None =>
      match children g !! i, coros !! i with
      | Some None, Some (Raise e) =>
          {| children := children g; outer := Some (Raise e) |}
      | Some None, Some (Return a) =>
          let children := <[i := Some a]> (children g) in
          {| children := children;
             outer := Return <$> mapM id children |}
      | _, _ => g
      end
  end.

(** Awaiting [asyncio.gather] of the tasks [coros] when they finish in the
    order [completion] lists them; [None] when the outer future is never
    settled. *)
Definition gather (completion : list nat) (coros : list (Completion A))
    : option (Completion (list A)) :=
  outer (foldl (done_callback coros) (gather_start coros) completion).

(** What holds at every moment of a [gather] over tasks that all return,
    task [i] with [results !! i]: one child per task, a finished child
    holds its own task's result, and the outer future is settled exactly
    when every child is finished, with the children's results in their
    order. *)
Definition consistent (results : list A) (g : Gathering) : Prop :=
  length (children g) = length results
  ∧ (∀ i a, children g !! i = Some (Some a) → results !! i = Some a)
  ∧ outer g = Return <$> mapM id (children g).

End gather.
Arguments Gathering A : clear implicits.

(** ** The data of the checker *)

(** A roster entry, [{'name': ..., 'url': ...}]. *)
Record Service := mkService { name : string; url : string }.

(** The dictionary [check_service] returns. [response_time_ms] is kept in
    hundredths of a millisecond. *)
Record ProbeResult := mkResult
  { service : string;
    result_url : string;
    timestamp : string;
    status : string;
    status_code : option Z;
    response_time_ms : option Z;
    error : option string }.

Definition set_status (v : string) (r : ProbeResult) : ProbeResult :=
  mkResult (service r) (result_url r) (timestamp r) v
           (status_code r) (response_time_ms r) (error r).
Definition set_status_code (v : option Z) (r : ProbeResult) : ProbeResult :=
  mkResult (service r) (result_url r) (timestamp r) (status r)
           v (response_time_ms r) (error r).
Definition set_response_time_ms (v : option Z) (r : ProbeResult) : ProbeResult :=
  mkResult (service r) (result_url r) (timestamp r) (status r)
           (status_code r) v (error r).
Definition set_error (v : option string) (r : ProbeResult) : ProbeResult :=
  mkResult (service r) (result_url r) (timestamp r) (status r)
           (status_code r) (response_time_ms r) v.

(** The dictionary [get_summary] returns. *)
Record Summary := mkSummary
  { total_services : Z;
    up : Z;
    down : Z;
    last_check : option string }.

(** The object state: the three attributes [__init__] sets. *)
Record ServiceChecker := mkChecker
  { services : list Service;
    timeout : Z;
    last_check_results : list ProbeResult }.

(** [ServiceChecker(services, timeout)]. *)
Definition init (services : list Service) (timeout : Z) : ServiceChecker :=
  {| services := services; timeout := timeout; last_check_results := [] |}.

(** ** The network, seen from one probe *)

(** What entering [async with session.get(url, timeout=...)] gives: a response
    with its status code, or an exception. Leaving the block releases the
    connection and raises nothing. *)
Inductive Attempt : Type :=
| Response (code : Z)
| Raised (e : PyException).

(** One request on the wire: the time that passes until its outcome is known,
    in microseconds, and the outcome. *)
Record Exchange := mkExchange
  { elapsed : Z;
    outcome : Attempt }.

(** The session as one probe finds it: what [session.get(url, timeout=t)]
    does. *)
Definition ClientSession : Type := string → Z → Exchange.

Definition get (session : ClientSession) (url : string) (timeout : Z) : Exchange :=
  session url timeout.

(** ** [ServiceChecker.check_service] *)

(** The [async with] statement, run on the [result] dictionary: entering it
    makes the request [x]; the body records the response. *)
Definition request (x : Exchange) (result : ProbeResult) : Completion ProbeResult :=
  match outcome x with
  | Raised e => Raise e
  | Response code =>
      let result := set_status_code (Some code) result in
      let result := set_response_time_ms (Some (py.round2 (elapsed x))) result in
      Return (if code =? 200 then set_status "up" result else result)
  end.

(** [except asyncio.TimeoutError:] *)
Definition on_timeout (x : Exchange) : ExceptClause ProbeResult :=
  (isinstance_TimeoutError,
   λ _ result,
     set_error (Some "Request timeout")
       (set_response_time_ms (Some (py.round2 (elapsed x))) result)).

(** [except aiohttp.ClientError as e:] *)
Definition on_client_error (x : Exchange) : ExceptClause ProbeResult :=
  (isinstance_ClientError,
   λ e result,
     set_error (Some (str e))
       (set_response_time_ms (Some (py.round2 (elapsed x))) result)).

(** [except Exception as e:] *)
Definition on_exception (x : Exchange) : ExceptClause ProbeResult :=
  (λ _, true,
   λ e result,
     set_error (Some (str e))
       (set_response_time_ms (Some (py.round2 (elapsed x))) result)).

(** [now] is the clock when the probe starts: [start_time] and the
    [timestamp] are read from it before the request is made. *)
Definition check_service (self : ServiceChecker) (session : ClientSession)
    (now : Z) (svc : Service) : Completion ProbeResult :=
  let result :=
    {| service := name svc;
       result_url := url svc;
       timestamp := datetime.isoformat (datetime.utcnow now) +:+ "Z";
       status := "down";
       status_code := None;
       response_time_ms := None;
       error := None |} in
  let x := get session (url svc) (timeout self) in
  try_except (request x result) result
    [on_timeout x; on_client_error x; on_exception x].

(** ** [ServiceChecker.check_all_services] *)

(** What one run meets: for the probe launched for roster position [i], the
    clock when it starts and the session as it finds it (the same url may be
    answered differently from one request to the next); and the order in
    which the probes finish. *)
Record Run := mkRun
  { clock : nat → Z;
    session : nat → ClientSession;
    completion : list nat }.

(** The returned list and the list stored in the object are one list. An
    exception out of [gather] leaves the assignment undone. *)
Definition check_all_services (self : ServiceChecker) (run : Run)
    : option (Completion (list ProbeResult * ServiceChecker)) :=
  let tasks :=
    imap (λ i svc, check_service self (session run i) (clock run i) svc)
         (services self) in
  match gather (completion run) tasks with
  | None => None
  | Some (Raise e) => Some (Raise e)
  | Some (Return results) =>
      let self := {| services := services self;
                     timeout := timeout self;
                     last_check_results := results |} in
      Some (Return (last_check_results self, self))
  end.

(** ** [ServiceChecker.get_last_results] and [ServiceChecker.get_summary] *)

Definition get_last_results (self : ServiceChecker)
    : list ProbeResult * ServiceChecker :=
  (last_check_results self, self).

Definition get_summary (self : ServiceChecker) : Summary * ServiceChecker :=
  match last_check_results self with
  | [] =>
      ({| total_services := py.len (services self);
          up := 0;
          down := py.len (services self);
          last_check := None |}, self)
  | first :: _ =>
      let up_count :=
        py.sum ((λ _, 1) <$> filter (λ r, status r = "up") (last_check_results self)) in
      let down_count := py.len (last_check_results self) - up_count in
      ({| total_services := py.len (services self);
          up := up_count;
          down := down_count;
          last_check := Some (timestamp first) |}, self)
  end.

(** ** The object over time *)

(** The three calls the routing layer makes, what they hand back, and the
    effect of a call on the object. *)
Inductive Call : Type :=
| CheckAllServices (run : Run)
| GetLastResults
| GetSummary.

Inductive Value : Type :=
| Results (l : list ProbeResult)
| Counts (s : Summary).

Definition call (op : Call) (self : ServiceChecker)
    : option (Completion (Value * ServiceChecker)) :=
  match op with
  | CheckAllServices run =>
      match check_all_services self run with
      | None => None
      | Some (Raise e) => Some (Raise e)
      | Some (Return (l, self')) => Some (Return (Results l, self'))
      end
  | GetLastResults =>
      let '(l, self') := get_last_results self in Some (Return (Results l, self'))
  | GetSummary =>
      let '(s, self') := get_summary self in Some (Return (Counts s, self'))
  end.

Definition is_read (op : Call) : bool :=
  match op with
  | CheckAllServices _ => false
  | GetLastResults | GetSummary => true
  end.

(** The states an object goes through: as constructed, then after each call
    that returned. *)
Inductive reachable : ServiceChecker → Prop :=
| reachable_init svcs t : reachable (init svcs t)
| reachable_call op self v self' :
    reachable self →
    call op self = Some (Return (v, self')) →
    reachable self'.

(** A sequence of calls made one after the other; [None] when one of them
    does not return. *)
Fixpoint calls (ops : list Call) (self : ServiceChecker) : option ServiceChecker :=
  match ops with
  | [] => Some self
  | op :: ops =>
      match call op self with
      | Some (Return (_, self')) => calls ops self'
      | _ => None
      end
  end.

(** ** A scenario

    Roster [A, B, C] with a timeout of 5 s, probed at 2026-01-20 10:00:00
    UTC: A answers 200 after 50 ms, B answers 500 after 80 ms, C hangs until
    the timeout. The probes finish in the order A, B, C on the wire; other
    orders are tried too. *)
Module Scenario.

Definition A := mkService "A" "urlA".
Definition B := mkService "B" "urlB".
Definition C := mkService "C" "urlC".
Definition roster : list Service := [A; B; C].

Definition ten_o_clock : Z := 1768903200000000.

Definition timeout_error : PyException :=
  {| isinstance_TimeoutError := true; isinstance_ClientError := false; str := EmptyString |}.

Definition wire (i : nat) : ClientSession :=
  λ _ _,
    match i with
    | 0%nat => mkExchange 50000 (Response 200)
    | 1%nat => mkExchange 80000 (Response 500)
    | _ => mkExchange 5000000 (Raised timeout_error)
    end.

Definition run (order : list nat) : Run :=
  {| clock := λ _, ten_o_clock; session := wire; completion := order |}.

Definition checker : ServiceChecker := init roster 5.

Definition batch : list ProbeResult :=
  [ mkResult "A" "urlA" "2026-01-20T10:00:00Z" "up" (Some 200) (Some 5000) None;
    mkResult "B" "urlB" "2026-01-20T10:00:00Z" "down" (Some 500) (Some 8000) None;
    mkResult "C" "urlC" "2026-01-20T10:00:00Z" "down" None (Some 500000)
             (Some "Request timeout") ].

Definition checked : ServiceChecker := mkChecker roster 5 batch.

Definition reads : list Call := [GetSummary; GetLastResults; GetSummary].

End Scenario.

(** ** What a stored result looks like *)

(** The three shapes [check_service] gives a result: up on a 200, down on
    another status code, down on an exception. *)
Definition well_formed (r : ProbeResult) : Prop :=
  is_Some (response_time_ms r)
  ∧ (status r = "up" ∧ status_code r = Some 200 ∧ error r = None
     ∨ status r = "down" ∧ (∃ code, code ≠ 200 ∧ status_code r = Some code)
       ∧ error r = None
     ∨ status r = "down" ∧ status_code r = None ∧ is_Some (error r)).

(** Whether an attempt ended in a response with status 200, and, for one run,
    which roster positions did. *)
Definition ok (a : Attempt) : bool :=
  match a with
  | Response code => code =? 200
  | Raised _ => false
  end.

Definition answers (self : ServiceChecker) (run : Run) : list bool :=
  imap (λ i svc, ok (outcome (get (session run i) (url svc) (timeout self))))
       (services self).

(** ** The routes of [availability-checker/main.py]

    The module keeps two globals, [config] and [checker]; each route reads
    the clock for its own [timestamp]. [jsonify] is left as the dictionary it
    is given, paired with the HTTP status. Of the configuration only the keys
    the checker and the routes read are kept, each absent ([None]) or
    present with a value of the expected shape. *)
Module main.

Record Config := mkConfig
  { cfg_services : option (list Service);
    cfg_timeout : option Z;
    cfg_check_interval : option Z }.

Record Globals := mkGlobals
  { config : Config;
    checker : ServiceChecker }.

(** Module level: [checker = ServiceChecker(services=config.get('services', []),
    timeout=config.get('timeout', 10))]. *)
Definition load (config : Config) : Globals :=
  {| config := config;
     checker := init (default [] (cfg_services config))
                     (default 10 (cfg_timeout config)) |}.

(** The dictionaries the routes hand to [jsonify]. *)
Inductive Body : Type :=
| Health (status timestamp service : string)
| Check (summary : Summary) (services : list ProbeResult) (timestamp : string)
| Status (summary : Summary) (services : list ProbeResult)
         (timestamp note : string)
| Index (service version : string) (endpoints : list (string * string))
        (monitored_services : list string) (check_interval : Z)
        (timestamp : string)
| Error (error timestamp : string).

Definition HttpResponse : Type := (Body * Z)%type.

(** [datetime.utcnow().isoformat() + 'Z'] *)
Definition stamp (now : Z) : string :=
  datetime.isoformat (datetime.utcnow now) +:+ "Z".

(** [GET /health] *)
Definition health (now : Z) (g : Globals) : HttpResponse * Globals :=
  ((Health "healthy" (stamp now) "availability-checker", 200), g).

(** [GET /check]: a run, then the summary of what the run stored; an
    exception out of either is answered with a 500. [None] when the run never
    comes back. *)
Definition check_services (run : Run) (now : Z) (g : Globals)
    : option (HttpResponse * Globals) :=
  match check_all_services (checker g) run with
  | None => None
  | Some (Raise e) => Some ((Error (str e) (stamp now), 500), g)
  | Some (Return (results, checker1)) =>
      let '(summary, checker2) := get_summary checker1 in
      Some ((Check summary results (stamp now), 200),
            {| config := config g; checker := checker2 |})
  end.

(** [GET /status] *)
Definition get_status (now : Z) (g : Globals) : HttpResponse * Globals :=
  let '(results, checker1) := get_last_results (checker g) in
  let '(summary, checker2) := get_summary checker1 in
  ((Status summary results (stamp now)
      "Last known status - use /check to trigger a new check", 200),
   {| config := config g; checker := checker2 |}).

(** [GET /] *)
Definition index (now : Z) (g : Globals) : HttpResponse * Globals :=
  ((Index "Availability Checker Microservice" "1.0.0"
      [("/health", "Health check endpoint");
       ("/check", "Trigger manual availability check for all services");
       ("/status", "Get last known status without triggering new check");
       ("/", "This documentation")]
      (name <$> default [] (cfg_services (config g)))
      (default 60 (cfg_check_interval (config g)))
      (stamp now), 200), g).

(** A request with the clock at the moment it is answered, and a server
    answering requests one after the other. *)
Inductive Request : Type :=
| GetHealth
| GetCheck (run : Run)
| GetStatus
| GetIndex.

Definition serve (req : Request) (now : Z) (g : Globals)
    : option (HttpResponse * Globals) :=
  match req with
  | GetHealth => Some (health now g)
  | GetCheck run => check_services run now g
  | GetStatus => Some (get_status now g)
  | GetIndex => Some (index now g)
  end.

Fixpoint serve_all (reqs : list (Request * Z)) (g : Globals) : option Globals :=
  match reqs with
  | [] => Some g
  | (req, now) :: reqs =>
      match serve req now g with
      | Some (_, g') => serve_all reqs g'
      | None => None
      end
  end.

Definition is_check (req : Request) : bool :=
  match req with
  | GetCheck _ => true
  | _ => false
  end.

End main.

(** Inputs for the examples of the later sections. *)
Module Samples.

(** A state no sequence of calls produces: three services, one stored
    result (the tests of the source assign [last_check_results] directly). *)
Definition patched : ServiceChecker :=
  mkChecker Scenario.roster 5
    [mkResult "A" "urlA" "2026-01-20T10:00:00Z" "up" (Some 200) (Some 5000) None].

Definition config : main.Config :=
  main.mkConfig (Some Scenario.roster) (Some 5) None.

Definition requests : list (main.Request * Z) :=
  [(main.GetStatus, Scenario.ten_o_clock + 6000000);
   (main.GetIndex, Scenario.ten_o_clock + 7000000);
   (main.GetHealth, Scenario.ten_o_clock + 8000000)].

Definition history : list Call :=
  [CheckAllServices (Scenario.run [2; 0; 1]%nat); GetSummary].

End Samples.

(** * Properties *)

(** ** The scenario, run *)

Example scenario_in_wire_order :
  check_all_services Scenario.checker (Scenario.run [0; 1; 2]%nat)
  = Some (Return (Scenario.batch, Scenario.checked)).
Proof. reflexivity. Qed.

Example scenario_slowest_first :
  check_all_services Scenario.checker (Scenario.run [2; 1; 0]%nat)
  = Some (Return (Scenario.batch, Scenario.checked)).
Proof. reflexivity. Qed.

Example scenario_unfinished :
  check_all_services Scenario.checker (Scenario.run [0; 1]%nat) = None.
Proof. reflexivity. Qed.

Example scenario_summary :
  (get_summary Scenario.checked).1
  = mkSummary 3 1 2 (Some "2026-01-20T10:00:00Z").
Proof. reflexivity. Qed.

Example round2_ties :
  py.round2 50125 = 5012 ∧ py.round2 50135 = 5014 ∧ py.round2 50126 = 5013.
Proof. done. Qed.

(** ** One probe *)

(** The dictionary a probe ends with, read off the source case by case: the
    fields every outcome shares, then the ones the outcome decides. *)
Lemma check_service_outcome (self : ServiceChecker) (session : ClientSession)
    (now : Z) (svc : Service) :
  let x := get session (url svc) (timeout self) in
  ∃ r, check_service self session now svc = Return r
    ∧ service r = name svc
    ∧ result_url r = url svc
    ∧ timestamp r = datetime.isoformat (datetime.utcnow now) +:+ "Z"
    ∧ response_time_ms r = Some (py.round2 (elapsed x))
    ∧ match outcome x with
      | Response code =>
          status r = (if code =? 200 then "up" else "down")
          ∧ status_code r = Some code ∧ error r = None
      | Raised e =>
          status r = "down" ∧ status_code r = None
          ∧ error r = Some (if isinstance_TimeoutError e then "Request timeout"
                            else str e)
      end.
Proof.
  intros x. unfold check_service, request, try_except. fold x.
  destruct (outcome x) as [code|[is_timeout is_client msg]]; simpl.
  - destruct (code =? 200); eexists; split; first done; done.
  - destruct is_timeout; simpl; [|destruct is_client; simpl];
      eexists; (split; first done); done.
Qed.

Lemma check_service_returns (self : ServiceChecker) (session : ClientSession)
    (now : Z) (svc : Service) :
  ∃ r, check_service self session now svc = Return r.
Proof. destruct (check_service_outcome self session now svc) as (r & Hr & _). eauto. Qed.

(** C1. Whatever the attempt gives, [check_service] returns a result whose
    [status] is ["up"] exactly when a response with status code 200 was
    received, and ["down"] exactly when it was not: another status code, a
    timeout, a client error or any other exception. *)
Theorem check_service_up_iff_200 (self : ServiceChecker) (session : ClientSession)
    (now : Z) (svc : Service) :
  ∃ r, check_service self session now svc = Return r
    ∧ (status r = "up"
       ↔ outcome (get session (url svc) (timeout self)) = Response 200)
    ∧ (status r = "down"
       ↔ outcome (get session (url svc) (timeout self)) ≠ Response 200).
Proof.
  destruct (check_service_outcome self session now svc)
    as (r & Hr & _ & _ & _ & _ & Hcase).
  exists r. split; first done.
  destruct (outcome _) as [code|e].
  - destruct Hcase as (Hs & _ & _). rewrite Hs.
    destruct (Z.eqb_spec code 200) as [Heq|Hne].
    + subst code. split; split; congruence.
    + split; split; congruence.
  - destruct Hcase as (Hs & _ & _). rewrite Hs. split; split; congruence.
Qed.

(** C4. The failure class decides [status_code] and [error]: a response
    (with status 200 or any other) gives its code and no error; an exception
    gives no code, with the error ["Request timeout"] for a timeout and
    [str(e)] for a client error or any other exception that is not a
    timeout. *)
Theorem check_service_error_by_class (self : ServiceChecker)
    (session : ClientSession) (now : Z) (svc : Service) :
  ∃ r, check_service self session now svc = Return r
    ∧ match outcome (get session (url svc) (timeout self)) with
      | Response code => status_code r = Some code ∧ error r = None
      | Raised e =>
          status_code r = None
          ∧ error r = Some (if isinstance_TimeoutError e then "Request timeout"
                            else str e)
      end.
Proof.
  destruct (check_service_outcome self session now svc)
    as (r & Hr & _ & _ & _ & _ & Hcase).
  exists r. split; first done.
  destruct (outcome _); tauto.
Qed.

(** C5. [check_service] never ends by raising: for a response and for every
    exception the attempt may raise, it returns a result; an exception leaves
    its text in [error]. *)
Theorem check_service_never_raises (self : ServiceChecker)
    (session : ClientSession) (now : Z) (svc : Service) :
  (∀ e, check_service self session now svc ≠ Raise e)
  ∧ ∃ r, check_service self session now svc = Return r
      ∧ match outcome (get session (url svc) (timeout self)) with
        | Response _ => error r = None
        | Raised _ => is_Some (error r)
        end.
Proof.
  destruct (check_service_outcome self session now svc)
    as (r & Hr & _ & _ & _ & _ & Hcase).
  split.
  - intros e He. congruence.
  - exists r. split; first done.
    destruct (outcome _); [tauto|]. destruct Hcase as (_ & _ & ->). by eexists.
Qed.

(** C7, as the code has it. The [timestamp] of a result is the clock read
    when the probe starts, before the request is issued, rendered by
    [isoformat] with a ["Z"] appended: it depends neither on how long the
    attempt takes nor on how it ends. *)
Theorem timestamp_is_start (self : ServiceChecker) (session : ClientSession)
    (now : Z) (svc : Service) :
  ∃ r, check_service self session now svc = Return r
    ∧ timestamp r = datetime.isoformat (datetime.utcnow now) +:+ "Z".
Proof.
  destruct (check_service_outcome self session now svc)
    as (r & Hr & _ & _ & Hstamp & _).
  eauto.
Qed.

(** C7 fails as stated: the probe of A in the scenario starts at 10:00:00 and
    has its response 50 ms later; it is stamped 10:00:00, not
    10:00:00.050000. *)
Lemma timestamp_is_not_completion :
  ∃ r, check_service Scenario.checker (Scenario.wire 0) Scenario.ten_o_clock
         Scenario.A = Return r
    ∧ elapsed (get (Scenario.wire 0) "urlA" 5) = 50000
    ∧ timestamp r = "2026-01-20T10:00:00Z"
    ∧ datetime.isoformat (datetime.utcnow (Scenario.ten_o_clock + 50000)) +:+ "Z"
      = "2026-01-20T10:00:00.050000Z"
    ∧ timestamp r
      ≠ datetime.isoformat (datetime.utcnow (Scenario.ten_o_clock + 50000)) +:+ "Z".
Proof.
  eexists. split; [reflexivity|].
  split; [reflexivity|]. split; [reflexivity|]. split; [reflexivity|].
  vm_compute. discriminate.
Qed.

(** ** [gather] hands the results back in task order *)

Section gather_facts.
Context {A : Type} (results : list A).

(** Tasks that all return, task [i] with [results !! i]. *)
Let coros : list (Completion A) := Return <$> results.

Lemma gather_start_consistent : consistent results (gather_start coros).
Proof.
  unfold consistent, gather_start, coros; simpl.
  rewrite length_replicate, length_fmap. split_and!; [done| |].
  - intros i a [? _]%lookup_replicate. done.
  - by destruct results.
Qed.

Lemma coros_lookup i c :
  coros !! i = Some c → ∃ a, results !! i = Some a ∧ c = Return a.
Proof.
  unfold coros. rewrite list_lookup_fmap.
  destruct (results !! i) as [a|]; intros [=]; eauto.
Qed.

Lemma done_callback_consistent g i :
  consistent results g → consistent results (done_callback coros g i).
Proof.
  intros Hg. pose proof Hg as (Hlen & Hres & Houter). unfold done_callback.
  destruct (outer g); [done|].
  destruct (children g !! i) as [[a|]|] eqn:Hchild; [done| |done].
  destruct (coros !! i) as [c|] eqn:Hcoro; [|done].
  apply coros_lookup in Hcoro as (a & Ha & ->).
  split_and!; simpl; [by rewrite length_insert| |done].
  intros j b. destruct (decide (i = j)) as [<-|Hne].
  - rewrite list_lookup_insert_eq by (by eapply lookup_lt_Some). congruence.
  - rewrite list_lookup_insert_ne by done. apply Hres.
Qed.

(** A finished child stays finished, with the same result. *)
Lemma done_callback_keeps g i j a :
  children g !! j = Some (Some a) →
  children (done_callback coros g i) !! j = Some (Some a).
Proof.
  intros Hj. unfold done_callback.
  destruct (outer g); [done|].
  destruct (children g !! i) as [[b|]|] eqn:Hchild; [done| |done].
  destruct (coros !! i) as [[b|e]|]; [|done..]; simpl.
  rewrite list_lookup_insert_ne; [done|congruence].
Qed.

(** After task [i] has finished, child [i] is finished. *)
Lemma done_callback_marks g i :
  consistent results g → (i < length results)%nat →
  ∃ a, children (done_callback coros g i) !! i = Some (Some a).
Proof.
  intros (Hlen & Hres & Houter) Hi. unfold done_callback.
  destruct (lookup_lt_is_Some_2 (children g) i) as [o Ho]; [lia|].
  destruct (outer g) as [c|] eqn:Hc.
  - destruct (mapM id (children g)) as [l|] eqn:Hall; [|done].
    apply mapM_Some_1 in Hall.
    destruct (Forall2_lookup_l _ _ _ _ _ Hall Ho) as (a & _ & Ha).
    simpl in Ha. subst o. eauto.
  - rewrite Ho. destruct o as [a|]; [eauto|].
    destruct (lookup_lt_is_Some_2 coros i) as [c Hcoro];
      [unfold coros; by rewrite length_fmap|].
    rewrite Hcoro. apply coros_lookup in Hcoro as (a & _ & ->). simpl.
    exists a. apply list_lookup_insert_eq. lia.
Qed.

Lemma foldl_consistent order g :
  consistent results g →
  consistent results (foldl (done_callback coros) g order).
Proof.
  revert g. induction order as [|i order IH]; intros g Hg; simpl; [done|].
  apply IH, done_callback_consistent, Hg.
Qed.

Lemma foldl_keeps order g j a :
  children g !! j = Some (Some a) →
  children (foldl (done_callback coros) g order) !! j = Some (Some a).
Proof.
  revert g. induction order as [|i order IH]; intros g Hj; simpl; [done|].
  apply IH, done_callback_keeps, Hj.
Qed.

Lemma foldl_marks order g i :
  consistent results g → i ∈ order → (i < length results)%nat →
  ∃ a, children (foldl (done_callback coros) g order) !! i = Some (Some a).
Proof.
  revert g. induction order as [|k order IH]; intros g Hg Hin Hi; simpl.
  - by apply elem_of_nil in Hin.
  - apply elem_of_cons in Hin as [<-|Hin].
    + destruct (done_callback_marks g i Hg Hi) as [a Ha].
      exists a. by apply foldl_keeps.
    + apply IH; [by apply done_callback_consistent|done..].
Qed.

(** With every child finished the outer future holds [results]. *)
Lemma consistent_all_done g :
  consistent results g →
  (∀ i, (i < length results)%nat → ∃ a, children g !! i = Some (Some a)) →
  outer g = Some (Return results).
Proof.
  intros (Hlen & Hres & ->) Hall.
  assert (children g = Some <$> results) as ->.
  { apply list_eq. intros i. rewrite list_lookup_fmap.
    destruct (decide (i < length results)%nat) as [Hi|Hi].
    - destruct (Hall i Hi) as [a Ha]. rewrite Ha, (Hres _ _ Ha). done.
    - rewrite !lookup_ge_None_2 by lia. done. }
  by rewrite mapM_fmap_Some.
Qed.

(** A settled outer future holds [results], whatever the order. *)
Lemma consistent_settled g c :
  consistent results g → outer g = Some c → c = Return results.
Proof.
  intros (Hlen & Hres & ->) Hc.
  destruct (mapM id (children g)) as [l|] eqn:Hall; [|done].
  injection Hc as <-. f_equal.
  apply mapM_Some_1 in Hall. apply list_eq. intros i.
  destruct (l !! i) as [a|] eqn:Hl.
  - destruct (Forall2_lookup_r _ _ _ _ _ Hall Hl) as (o & Ho & Hid).
    simpl in Hid. subst o. symmetry. by apply Hres.
  - apply Forall2_length in Hall. apply lookup_ge_None in Hl.
    symmetry. apply lookup_ge_None. lia.
Qed.

(** Once every task has finished, in whatever order, [gather] returns the
    results in task order. *)
Lemma gather_all_done order :
  (∀ i, (i < length results)%nat → i ∈ order) →
  gather order coros = Some (Return results).
Proof.
  intros Hall. unfold gather.
  apply consistent_all_done.
  - apply foldl_consistent, gather_start_consistent.
  - intros i Hi. apply foldl_marks; auto using gather_start_consistent.
Qed.

(** If [gather] comes back at all, it is with the results in task order. *)
Lemma gather_settled order c :
  gather order coros = Some c → c = Return results.
Proof.
  unfold gather. apply consistent_settled.
  apply foldl_consistent, gather_start_consistent.
Qed.

End gather_facts.

(** Once the outer future is settled, later completions change nothing. *)
Lemma foldl_done_callback_settled {A} (coros : list (Completion A)) order g c :
  outer g = Some c → foldl (done_callback coros) g order = g.
Proof.
  intros Hc. induction order as [|i order IH]; simpl; [done|].
  unfold done_callback at 2. rewrite Hc. apply IH.
Qed.

(** ** A run of the checker *)

(** Tasks that each return are the [Return]s of a list of results, one per
    roster entry and in roster order. *)
Lemma tasks_return (f : nat → Service → Completion ProbeResult) (roster : list Service) :
  (∀ i svc, ∃ r, f i svc = Return r) →
  ∃ results,
    imap f roster = Return <$> results
    ∧ length results = length roster
    ∧ ∀ i svc, roster !! i = Some svc →
        ∃ r, results !! i = Some r ∧ f i svc = Return r.
Proof.
  revert f. induction roster as [|svc0 roster IH]; intros f Hf.
  - exists []. split_and!; [done..|]. intros i svc. by rewrite lookup_nil.
  - destruct (Hf 0%nat svc0) as [r0 Hr0].
    destruct (IH (f ∘ S)) as (results & Htasks & Hlen & Hat).
    { intros i svc. apply Hf. }
    exists (r0 :: results). rewrite imap_cons, Htasks, Hr0.
    split_and!; [done|simpl; lia|].
    intros [|i] svc Hsvc; simpl in *.
    + injection Hsvc as <-. eauto.
    + apply (Hat i svc Hsvc).
Qed.

(** C2. When every probe of a run finishes, in whatever order and with
    whatever outcome, [check_all_services] returns and stores one result per
    roster entry, and the result at position [i] is the one [check_service]
    produced for the roster entry at position [i]: it carries that entry's
    name and url. *)
Theorem check_all_services_aligned (self : ServiceChecker) (run : Run) :
  (∀ i, (i < length (services self))%nat → i ∈ completion run) →
  ∃ results,
    check_all_services self run
      = Some (Return (results, mkChecker (services self) (timeout self) results))
    ∧ length results = length (services self)
    ∧ ∀ i svc, services self !! i = Some svc →
        ∃ r, results !! i = Some r
          ∧ check_service self (session run i) (clock run i) svc = Return r
          ∧ service r = name svc ∧ result_url r = url svc.
Proof.
  intros Hall. unfold check_all_services.
  destruct (tasks_return
              (λ i svc, check_service self (session run i) (clock run i) svc)
              (services self)) as (results & -> & Hlen & Hat).
  { intros i svc. apply check_service_returns. }
  exists results. rewrite gather_all_done by (by rewrite Hlen).
  split_and!; [done..|].
  intros i svc Hsvc. destruct (Hat i svc Hsvc) as (r & Hr & Hcheck).
  exists r. split_and!; [done..| |];
    destruct (check_service_outcome self (session run i) (clock run i) svc)
      as (r' & Hr' & Hname & Hurl & _); congruence.
Qed.

Lemma check_all_services_aligned_witness :
  (∀ i, (i < length (services Scenario.checker))%nat
        → i ∈ completion (Scenario.run [2; 0; 1]%nat))
  ∧ ∃ results,
      check_all_services Scenario.checker (Scenario.run [2; 0; 1]%nat)
        = Some (Return (results, mkChecker Scenario.roster 5 results))
      ∧ length results = length Scenario.roster
      ∧ ∀ i svc, Scenario.roster !! i = Some svc →
          ∃ r, results !! i = Some r
            ∧ check_service Scenario.checker (Scenario.wire i)
                Scenario.ten_o_clock svc = Return r
            ∧ service r = name svc ∧ result_url r = url svc.
Proof.
  assert (∀ i, (i < length (services Scenario.checker))%nat
               → i ∈ completion (Scenario.run [2; 0; 1]%nat)) as Hall.
  { simpl. intros [|[|[|i]]] Hi; [repeat constructor..|lia]. }
  split; [exact Hall|].
  exact (check_all_services_aligned Scenario.checker
           (Scenario.run [2; 0; 1]%nat) Hall).
Defined.

(** ** The object over time *)

Lemma get_summary_self self : (get_summary self).2 = self.
Proof. unfold get_summary. by destruct (last_check_results self). Qed.

(** What a call that returned did to the object. *)
Lemma call_returned op self v self' :
  call op self = Some (Return (v, self')) →
  services self' = services self
  ∧ timeout self' = timeout self
  ∧ (is_read op = true → self' = self)
  ∧ (last_check_results self' = last_check_results self
     ∨ length (last_check_results self') = length (services self)).
Proof.
  destruct op as [run| |]; simpl.
  - unfold check_all_services.
    destruct (tasks_return
                (λ i svc, check_service self (session run i) (clock run i) svc)
                (services self)) as (results & -> & Hlen & _).
    { intros i svc. apply check_service_returns. }
    destruct (gather _ _) as [c|] eqn:Hg; [|done].
    apply gather_settled in Hg as ->. intros [= _ <-]. simpl.
    split_and!; [done..| |by right]. done.
  - intros [= _ <-]. split_and!; [done..|by left].
  - pose proof (get_summary_self self) as Hself.
    destruct (get_summary self) as [s c]. simpl in Hself. subst c.
    intros [= _ <-]. split_and!; [done..|by left].
Qed.

(** The stored batch is empty or as long as the roster. *)
Lemma reachable_batch self :
  reachable self →
  last_check_results self = []
  ∨ length (last_check_results self) = length (services self).
Proof.
  induction 1 as [svcs t|op self v self' _ IH Hcall]; [by left|].
  apply call_returned in Hcall as (Hsvcs & _ & _ & [Hsame|Hlen]).
  - rewrite Hsame, Hsvcs. exact IH.
  - right. by rewrite Hsvcs.
Qed.

Lemma scenario_reachable : reachable Scenario.checked.
Proof.
  apply (reachable_call (CheckAllServices (Scenario.run [2; 0; 1]%nat))
           Scenario.checker (Results Scenario.batch)).
  - apply reachable_init.
  - reflexivity.
Defined.

(** ** The summary *)

Lemma sum_ones {A} (l : list A) : py.sum ((λ _, 1) <$> l) = py.len l.
Proof.
  unfold py.len, py.sum. induction l as [|a l IH]; [done|].
  rewrite fmap_cons. cbn [foldr length]. rewrite IH. lia.
Qed.

(** C3. In every state the object can reach, the counts of [get_summary] add
    up: [up + down = total_services], and [total_services] is the length of
    the roster; neither count is negative. Before the first run [up] is 0
    and [down] is the length of the roster. *)
Theorem get_summary_counts (self : ServiceChecker) (svcs : list Service) (t : Z) :
  reachable self →
  (up (get_summary self).1 + down (get_summary self).1
   = total_services (get_summary self).1
   ∧ total_services (get_summary self).1 = py.len (services self)
   ∧ 0 ≤ up (get_summary self).1
   ∧ 0 ≤ down (get_summary self).1)
  ∧ up (get_summary (init svcs t)).1 = 0
  ∧ down (get_summary (init svcs t)).1 = py.len svcs.
Proof.
  intros Hreach. split; [|done].
  apply reachable_batch in Hreach as Hbatch. unfold get_summary.
  destruct (last_check_results self) as [|first rest] eqn:Hlast; simpl.
  - unfold py.len. lia.
  - destruct Hbatch as [?|Hlen]; [done|].
    rewrite sum_ones. unfold py.len in *. rewrite <- Hlen.
    pose proof (length_filter (λ r, status r = "up") (first :: rest)).
    lia.
Qed.

Lemma get_summary_counts_witness :
  reachable Scenario.checked
  ∧ up (get_summary Scenario.checked).1 + down (get_summary Scenario.checked).1
    = total_services (get_summary Scenario.checked).1
  ∧ total_services (get_summary Scenario.checked).1 = 3.
Proof.
  split; [exact scenario_reachable|].
  pose proof (get_summary_counts Scenario.checked [] 0 scenario_reachable)
    as [(Hsum & Htotal & _) _].
  split; [exact Hsum|exact Htotal].
Defined.

(** C6. [last_check] is the [timestamp] of the stored result at index 0 when
    the stored batch has one, and [None] when the stored batch is empty, as
    it is before any run. *)
Theorem get_summary_last_check (self : ServiceChecker) (svcs : list Service) (t : Z) :
  last_check (get_summary self).1 = timestamp <$> last_check_results self !! 0%nat
  ∧ last_check (get_summary (init svcs t)).1 = None.
Proof.
  split; [|done]. unfold get_summary.
  by destruct (last_check_results self).
Qed.

(** C8. On an empty roster [check_all_services] returns the empty list,
    raises nothing and leaves the object as it was, whatever the environment;
    and [get_summary] gives 0 services, 0 up, 0 down and no last check. *)
Theorem empty_roster (t : Z) (run : Run) :
  check_all_services (init [] t) run = Some (Return ([], init [] t))
  ∧ (get_summary (init [] t)).1 = mkSummary 0 0 0 None.
Proof.
  split; [|done]. unfold check_all_services, gather. simpl.
  by rewrite (foldl_done_callback_settled _ _ _ (Return [])).
Qed.

(** ** Reads and frames *)

(** C9. [get_last_results] and [get_summary] are reads: after any sequence
    of them, all of which return, both give what they gave before; and on an
    object that has never run [get_last_results] gives the empty list. *)
Theorem reads_repeat (self : ServiceChecker) (ops : list Call)
    (svcs : list Service) (t : Z) :
  Forall (λ op, is_read op = true) ops →
  (∃ self', calls ops self = Some self'
     ∧ (get_last_results self').1 = (get_last_results self).1
     ∧ (get_summary self').1 = (get_summary self).1)
  ∧ (get_last_results (init svcs t)).1 = [].
Proof.
  intros Hreads. split; [|done].
  exists self. split; [|done].
  induction Hreads as [|op ops Hop _ IH]; simpl; [done|].
  destruct op as [run| |]; [done| |]; simpl.
  - exact IH.
  - pose proof (get_summary_self self) as Hself.
    destruct (get_summary self) as [s c]. simpl in Hself. by subst c.
Qed.

Lemma reads_repeat_witness :
  Forall (λ op, is_read op = true) Scenario.reads
  ∧ ∃ self', calls Scenario.reads Scenario.checked = Some self'
      ∧ (get_last_results self').1 = (get_last_results Scenario.checked).1
      ∧ (get_summary self').1 = (get_summary Scenario.checked).1.
Proof.
  assert (Forall (λ op, is_read op = true) Scenario.reads) as Hreads.
  { repeat constructor. }
  split; [exact Hreads|].
  exact (proj1 (reads_repeat Scenario.checked Scenario.reads [] 0 Hreads)).
Defined.

(** C10. A call that returns leaves [services] and [timeout] as they were;
    [check_all_services] changes nothing but [last_check_results], and
    [get_last_results] and [get_summary] change nothing at all. *)
Theorem call_frame (op : Call) (self self' : ServiceChecker) (v : Value) :
  call op self = Some (Return (v, self')) →
  services self' = services self
  ∧ timeout self' = timeout self
  ∧ (if is_read op then self' = self else True).
Proof.
  intros Hcall. apply call_returned in Hcall as (Hsvcs & Htimeout & Hread & _).
  split_and!; [done..|]. destruct (is_read op); auto.
Qed.

Lemma call_frame_witness :
  call (CheckAllServices (Scenario.run [0; 1; 2]%nat)) Scenario.checker
    = Some (Return (Results Scenario.batch, Scenario.checked))
  ∧ services Scenario.checked = services Scenario.checker
  ∧ timeout Scenario.checked = timeout Scenario.checker.
Proof.
  assert (call (CheckAllServices (Scenario.run [0; 1; 2]%nat)) Scenario.checker
          = Some (Return (Results Scenario.batch, Scenario.checked))) as Hcall
    by reflexivity.
  split; [exact Hcall|].
  pose proof (call_frame _ _ _ _ Hcall) as (Hsvcs & Htimeout & _).
  split; [exact Hsvcs|exact Htimeout].
Defined.

(** * Further properties of the checker *)

(** ** [gather] comes back only when every task has finished *)

Section gather_origin.
Context {A : Type} (coros : list (Completion A)).

(** A child is finished only by its own task finishing. *)
Lemma done_callback_origin g k i a :
  children (done_callback coros g k) !! i = Some (Some a) →
  children g !! i = Some (Some a) ∨ i = k.
Proof.
  unfold done_callback.
  destruct (outer g); [by left|].
  destruct (children g !! k) as [[b|]|] eqn:Hchild; [by left| |by left].
  destruct (coros !! k) as [[b|e]|]; [|by left..]; simpl.
  destruct (decide (i = k)) as [->|Hne]; [by right|].
  rewrite list_lookup_insert_ne by done. by left.
Qed.

Lemma foldl_origin order g i a :
  children (foldl (done_callback coros) g order) !! i = Some (Some a) →
  children g !! i = Some (Some a) ∨ i ∈ order.
Proof.
  revert g. induction order as [|k order IH]; intros g Hi; simpl in *; [by left|].
  destruct (IH _ Hi) as [Hk|Hin].
  - destruct (done_callback_origin _ _ _ _ Hk) as [?| ->]; [by left|].
    right. apply list_elem_of_here.
  - right. by apply list_elem_of_further.
Qed.

End gather_origin.

Lemma gather_returned_all_done {A} (results : list A) order c :
  gather order (Return <$> results) = Some c →
  ∀ i, (i < length results)%nat → i ∈ order.
Proof.
  unfold gather. intros Hc i Hi.
  pose proof (foldl_consistent results order _ (gather_start_consistent results))
    as (Hlen & _ & Houter).
  rewrite Hc in Houter.
  destruct (mapM id _) as [l|] eqn:Hall; [|done].
  apply mapM_Some_1 in Hall.
  destruct (lookup_lt_is_Some_2 _ i ltac:(rewrite Hlen; exact Hi)) as [o Ho].
  destruct (Forall2_lookup_l _ _ _ _ _ Hall Ho) as (a & _ & Ha).
  simpl in Ha. subst o.
  apply foldl_origin in Ho as [Hstart|Hin]; [|done].
  simpl in Hstart. apply lookup_replicate in Hstart as [? _]. done.
Qed.

(** ** A run, whenever it comes back *)

(** What [check_all_services] comes back with, if it comes back. *)
Lemma check_all_services_returned self run c :
  check_all_services self run = Some c →
  (∀ i, (i < length (services self))%nat → i ∈ completion run)
  ∧ ∃ results,
      c = Return (results, mkChecker (services self) (timeout self) results)
      ∧ length results = length (services self)
      ∧ ∀ i svc, services self !! i = Some svc →
          ∃ r, results !! i = Some r
            ∧ check_service self (session run i) (clock run i) svc = Return r.
Proof.
  unfold check_all_services.
  destruct (tasks_return
              (λ i svc, check_service self (session run i) (clock run i) svc)
              (services self)) as (results & -> & Hlen & Hat).
  { intros i svc. apply check_service_returns. }
  destruct (gather _ _) as [c'|] eqn:Hg; [|done].
  pose proof (gather_returned_all_done _ _ _ Hg) as Hall.
  apply gather_settled in Hg as ->. intros [= <-].
  split; [by rewrite <- Hlen|]. exists results. done.
Qed.

(** X1. A run comes back exactly when every probe has finished. *)
Theorem check_all_services_returns_iff (self : ServiceChecker) (run : Run) :
  is_Some (check_all_services self run)
  ↔ ∀ i, (i < length (services self))%nat → i ∈ completion run.
Proof.
  split.
  - intros [c Hc]. by apply check_all_services_returned in Hc as [Hall _].
  - intros Hall. unfold check_all_services.
    destruct (tasks_return
                (λ i svc, check_service self (session run i) (clock run i) svc)
                (services self)) as (results & -> & Hlen & Hat).
    { intros i svc. apply check_service_returns. }
    rewrite gather_all_done by (by rewrite Hlen). by eexists.
Qed.

(** X2. A run never raises and never hands back part of a batch: either it
    does not come back, or it returns one result per roster entry, in roster
    order, which is also what [get_last_results] gives from then on. *)
Theorem check_all_services_all_or_nothing (self : ServiceChecker) (run : Run) :
  check_all_services self run = None
  ∨ ∃ results self',
      check_all_services self run = Some (Return (results, self'))
      ∧ (get_last_results self').1 = results
      ∧ length results = length (services self)
      ∧ ∀ i svc, services self !! i = Some svc →
          ∃ r, results !! i = Some r
            ∧ check_service self (session run i) (clock run i) svc = Return r.
Proof.
  destruct (check_all_services self run) as [c|] eqn:Hc; [right|by left].
  apply check_all_services_returned in Hc as (_ & results & -> & Hlen & Hat).
  by exists results, (mkChecker (services self) (timeout self) results).
Qed.

(** ** The stored results *)

Lemma check_service_well_formed self session now svc r :
  check_service self session now svc = Return r →
  well_formed r ∧ service r = name svc ∧ result_url r = url svc.
Proof.
  intros Hr.
  destruct (check_service_outcome self session now svc)
    as (r' & Hr' & Hname & Hurl & _ & Htime & Hcase).
  assert (r' = r) as -> by congruence.
  split; [|done]. split; [by rewrite Htime|].
  destruct (outcome _) as [code|e].
  - destruct Hcase as (Hs & Hcode & Herr).
    destruct (Z.eqb_spec code 200) as [Heq|Hne]; [subst code; by left|].
    right; left. split_and!; [done| |done]. by exists code.
  - destruct Hcase as (Hs & Hcode & Herr).
    right; right. split_and!; [done..|]. by rewrite Herr.
Qed.

(** X3. In every state the object can reach, each stored result has one of
    the three shapes [check_service] produces and sits at the position of the
    roster entry whose name and url it carries. *)
Theorem stored_results_well_formed (self : ServiceChecker) (i : nat) (r : ProbeResult) :
  reachable self →
  last_check_results self !! i = Some r →
  well_formed r
  ∧ ∃ svc, services self !! i = Some svc
      ∧ service r = name svc ∧ result_url r = url svc.
Proof.
  intros Hreach. revert i r.
  induction Hreach as [svcs t|op self v self' _ IH Hcall]; intros i r Hr.
  - simpl in Hr. by rewrite lookup_nil in Hr.
  - destruct op as [run| |].
    + simpl in Hcall.
      destruct (check_all_services self run) as [c|] eqn:Hc; [|done].
      apply check_all_services_returned in Hc as (_ & results & -> & Hlen & Hat).
      injection Hcall as _ <-. simpl in *.
      destruct (lookup_lt_is_Some_2 (services self) i) as [svc Hsvc].
      { rewrite <- Hlen. by eapply lookup_lt_Some. }
      destruct (Hat i svc Hsvc) as (r' & Hr' & Hcheck).
      assert (r' = r) as -> by congruence.
      apply check_service_well_formed in Hcheck as (Hwf & Hname & Hurl).
      split; [done|]. by exists svc.
    + apply call_returned in Hcall as (_ & _ & Hread & _).
      rewrite (Hread eq_refl) in *. by apply IH.
    + apply call_returned in Hcall as (_ & _ & Hread & _).
      rewrite (Hread eq_refl) in *. by apply IH.
Qed.

Lemma stored_results_well_formed_witness :
  reachable Scenario.checked
  ∧ last_check_results Scenario.checked !! 2%nat
    = Some (mkResult "C" "urlC" "2026-01-20T10:00:00Z" "down" None (Some 500000)
                     (Some "Request timeout"))
  ∧ well_formed (mkResult "C" "urlC" "2026-01-20T10:00:00Z" "down" None
                          (Some 500000) (Some "Request timeout")).
Proof.
  split; [exact scenario_reachable|]. split; [reflexivity|].
  exact (proj1 (stored_results_well_formed Scenario.checked 2 _
                  scenario_reachable eq_refl)).
Defined.

(** ** No history *)

Lemma calls_frame ops self self' :
  calls ops self = Some self' →
  services self' = services self ∧ timeout self' = timeout self.
Proof.
  revert self. induction ops as [|op ops IH]; intros self; simpl.
  - by intros [= <-].
  - destruct (call op self) as [[[v self1]|e]|] eqn:Hcall; [|done..].
    intros Hrest. apply call_returned in Hcall as (Hsvcs & Htimeout & _).
    apply IH in Hrest as [-> ->]. done.
Qed.

Lemma check_all_services_ext self1 self2 run :
  services self1 = services self2 →
  timeout self1 = timeout self2 →
  check_all_services self1 run = check_all_services self2 run.
Proof.
  destruct self1, self2; simpl. intros -> ->. reflexivity.
Qed.

(** X4. A run does not look at what the object went through before: after
    any sequence of calls that returned, [check_all_services] gives, and
    stores, exactly what it would have given on the object as it was before
    them. The batch of an earlier run leaves no trace. *)
Theorem check_all_services_forgets (ops : list Call) (self self' : ServiceChecker)
    (run : Run) :
  calls ops self = Some self' →
  check_all_services self' run = check_all_services self run.
Proof.
  intros Hcalls. apply calls_frame in Hcalls as [Hsvcs Htimeout].
  by apply check_all_services_ext.
Qed.

Lemma check_all_services_forgets_witness :
  calls Samples.history Scenario.checker = Some Scenario.checked
  ∧ check_all_services Scenario.checked (Scenario.run [0; 1; 2]%nat)
    = check_all_services Scenario.checker (Scenario.run [0; 1; 2]%nat).
Proof.
  assert (calls Samples.history Scenario.checker = Some Scenario.checked)
    as Hcalls by reflexivity.
  split; [exact Hcalls|].
  exact (check_all_services_forgets _ _ _ (Scenario.run [0; 1; 2]%nat) Hcalls).
Defined.

(** ** The summary, read against the run and against the stored batch *)

Lemma filter_length_Forall2 {A B} (P : A → Prop) (Q : B → Prop)
    `{!∀ x, Decision (P x)} `{!∀ y, Decision (Q y)} (l : list A) (k : list B) :
  Forall2 (λ x y, P x ↔ Q y) l k →
  length (filter P l) = length (filter Q k).
Proof.
  induction 1 as [|x y l k Hxy _ IH]; [done|].
  rewrite !filter_cons.
  destruct (decide (P x)), (decide (Q y)); simpl; [lia|tauto..|lia].
Qed.

Lemma filter_true_false (l : list bool) :
  (length (filter (λ b : bool, b = true) l)
   + length (filter (λ b : bool, b = false) l) = length l)%nat.
Proof.
  induction l as [|b l IH]; [done|].
  rewrite !filter_cons. destruct b; repeat case_decide; try done; simpl; lia.
Qed.

Lemma check_service_up_ok self session now svc r :
  check_service self session now svc = Return r →
  status r = "up" ↔ ok (outcome (get session (url svc) (timeout self))) = true.
Proof.
  intros Hr.
  destruct (check_service_outcome self session now svc)
    as (r' & Hr' & _ & _ & _ & _ & Hcase).
  assert (r' = r) as -> by congruence.
  destruct (outcome _) as [code|e]; simpl; destruct Hcase as (-> & _ & _).
  - by destruct (code =? 200).
  - done.
Qed.

(** X5. After a run, the summary is decided by what the probes met: [up]
    counts the roster positions answered with a 200, [down] is the rest of
    the roster, and [last_check] is the start of the probe of the first
    roster entry, whichever probe finished first. *)
Theorem summary_after_run (self self' : ServiceChecker) (run : Run)
    (results : list ProbeResult) :
  check_all_services self run = Some (Return (results, self')) →
  total_services (get_summary self').1 = py.len (services self)
  ∧ up (get_summary self').1
    = py.len (filter (λ b : bool, b = true) (answers self run))
  ∧ down (get_summary self').1
    = py.len (filter (λ b : bool, b = false) (answers self run))
  ∧ last_check (get_summary self').1
    = (λ _, datetime.isoformat (datetime.utcnow (clock run 0)) +:+ "Z")
      <$> services self !! 0%nat.
Proof.
  intros Hc.
  apply check_all_services_returned in Hc as (_ & res & Heq & Hlen & Hat).
  injection Heq as -> ->.
  assert (length (answers self run) = length (services self)) as Hanswers
    by apply length_imap.
  assert (length (filter (λ r, status r = "up") res)
          = length (filter (λ b : bool, b = true) (answers self run))) as Hup.
  { apply filter_length_Forall2, Forall2_same_length_lookup_2; [congruence|].
    intros i r b Hr Hb. unfold answers in Hb.
    rewrite list_lookup_imap in Hb.
    destruct (services self !! i) as [svc|] eqn:Hsvc; [|done].
    simpl in Hb. injection Hb as <-.
    destruct (Hat i svc Hsvc) as (r' & Hr' & Hcheck).
    assert (r' = r) as -> by congruence.
    by apply check_service_up_ok in Hcheck. }
  assert (length (filter (λ b : bool, b = true) (answers self run))
          + length (filter (λ b : bool, b = false) (answers self run))
          = length (answers self run))%nat as Hsplit.
  { apply filter_true_false. }
  unfold get_summary; simpl.
  destruct res as [|first rest] eqn:Hres.
  - destruct (services self) as [|svc0 roster] eqn:Hsvcs; [|done].
    unfold answers. rewrite Hsvcs. done.
  - rewrite <- Hres in *. simpl. rewrite sum_ones. unfold py.len.
    split_and!; [done|lia|lia|].
    destruct (lookup_lt_is_Some_2 (services self) 0) as [svc Hsvc].
    { rewrite <- Hlen, Hres. simpl. lia. }
    rewrite Hsvc. simpl.
    destruct (Hat 0%nat svc Hsvc) as (r & Hr & Hcheck).
    rewrite Hres in Hr. injection Hr as ->.
    destruct (check_service_outcome self (session run 0) (clock run 0) svc)
      as (r' & Hr' & _ & _ & Hstamp & _).
    congruence.
Qed.

Lemma summary_after_run_witness :
  check_all_services Scenario.checker (Scenario.run [2; 0; 1]%nat)
    = Some (Return (Scenario.batch, Scenario.checked))
  ∧ answers Scenario.checker (Scenario.run [2; 0; 1]%nat) = [true; false; false]
  ∧ up (get_summary Scenario.checked).1 = 1
  ∧ down (get_summary Scenario.checked).1 = 2.
Proof.
  assert (check_all_services Scenario.checker (Scenario.run [2; 0; 1]%nat)
          = Some (Return (Scenario.batch, Scenario.checked))) as Hrun
    by reflexivity.
  split; [exact Hrun|]. split; [reflexivity|].
  pose proof (summary_after_run _ _ _ _ Hrun) as (_ & Hup & Hdown & _).
  split; [exact Hup|exact Hdown].
Defined.

(** X6. Whatever the state of the object, reachable or not, when a batch is
    stored the counts add up to the length of that batch, with [up] between
    0 and it, while [total_services] is the length of the roster: the counts
    add up to [total_services] only as long as the two lengths agree. *)
Theorem get_summary_counts_stored (self : ServiceChecker) :
  last_check_results self ≠ [] →
  up (get_summary self).1 + down (get_summary self).1
  = py.len (last_check_results self)
  ∧ 0 ≤ up (get_summary self).1 ≤ py.len (last_check_results self)
  ∧ total_services (get_summary self).1 = py.len (services self).
Proof.
  intros Hstored. unfold get_summary.
  destruct (last_check_results self) as [|first rest]; [done|]. simpl.
  rewrite sum_ones. unfold py.len.
  pose proof (length_filter (λ r, status r = "up") (first :: rest)).
  split_and!; [lia|lia| |done]. simpl in *. lia.
Qed.

Lemma get_summary_counts_stored_witness :
  last_check_results Samples.patched ≠ []
  ∧ up (get_summary Samples.patched).1 + down (get_summary Samples.patched).1 = 1
  ∧ total_services (get_summary Samples.patched).1 = 3.
Proof.
  assert (last_check_results Samples.patched ≠ []) as Hstored by discriminate.
  split; [exact Hstored|].
  pose proof (get_summary_counts_stored Samples.patched Hstored)
    as (Hsum & _ & Htotal).
  split; [exact Hsum|exact Htotal].
Defined.

(** * The routes *)


(** [get_summary], field by field, on any state. *)
Lemma get_summary_fields self :
  (get_summary self).2 = self
  ∧ total_services (get_summary self).1 = py.len (services self)
  ∧ up (get_summary self).1
    = py.len (filter (λ r, status r = "up") (last_check_results self))
  ∧ down (get_summary self).1
    = match last_check_results self with
      | [] => py.len (services self)
      | _ => py.len (last_check_results self) - up (get_summary self).1
      end
  ∧ last_check (get_summary self).1
    = timestamp <$> last_check_results self !! 0%nat.
Proof.
  unfold get_summary.
  destruct (last_check_results self) as [|first rest]; simpl; [done|].
  by rewrite sum_ones.
Qed.

(** What answering a request does to the globals. *)
Lemma serve_frame req now g resp g' :
  main.serve req now g = Some (resp, g') →
  main.config g' = main.config g
  ∧ services (main.checker g') = services (main.checker g)
  ∧ timeout (main.checker g') = timeout (main.checker g)
  ∧ (main.is_check req = false → g' = g).
Proof.
  destruct g as [cfg chk]. destruct req as [|run| |]; simpl.
  - intros [= _ <-]. done.
  - unfold main.check_services; simpl.
    destruct (check_all_services chk run) as [c|] eqn:Hc; [|done].
    apply check_all_services_returned in Hc as (_ & results & -> & _).
    pose proof (get_summary_fields (mkChecker (services chk) (timeout chk) results))
      as (Hself & _).
    destruct (get_summary _) as [s chk2]. simpl in Hself. subst chk2.
    intros [= _ <-]. done.
  - unfold main.get_status; simpl.
    pose proof (get_summary_fields chk) as (Hself & _).
    destruct (get_summary chk) as [s chk2]. simpl in Hself. subst chk2.
    intros [= _ <-]. done.
  - intros [= _ <-]. done.
Qed.

Lemma serve_all_frame reqs g g' :
  main.serve_all reqs g = Some g' →
  main.config g' = main.config g
  ∧ services (main.checker g') = services (main.checker g)
  ∧ (Forall (λ rq, main.is_check rq.1 = false) reqs → g' = g).
Proof.
  revert g. induction reqs as [|[req now] reqs IH]; intros g; simpl.
  - by intros [= <-].
  - destruct (main.serve req now g) as [[resp g1]|] eqn:Hserve; [|done].
    intros Hrest. apply serve_frame in Hserve as (Hcfg & Hsvcs & _ & Hsame).
    apply IH in Hrest as (-> & -> & Hrest). split_and!; [done..|].
    intros [Hreq Hreqs]%Forall_cons. rewrite Hrest by done. by apply Hsame.
Qed.





Lemma serve_all_no_check reqs g :
  Forall (λ rq, main.is_check rq.1 = false) reqs →
  main.serve_all reqs g = Some g.
Proof.
  induction 1 as [|[req now] reqs Hreq _ IH]; simpl; [done|].
  destruct req as [|run| |]; simpl in *; [|done| |].
  - exact IH.
  - destruct (main.get_status now g) as [resp g1] eqn:Hserve.
    assert (main.serve main.GetStatus now g = Some (resp, g1)) as Hs
      by (by simpl; f_equal).
    apply serve_frame in Hs as (_ & _ & _ & Hsame). by rewrite Hsame.
  - exact IH.
Qed.



(** X10. As long as no [GET /check] has been answered, [GET /status] answers
    200 with no results and a summary that counts every configured service
    as down, with no last check. *)
Theorem status_route_before_check (config : main.Config)
    (reqs : list (main.Request * Z)) (now : Z) :
  Forall (λ rq, main.is_check rq.1 = false) reqs →
  ∃ g, main.serve_all reqs (main.load config) = Some g
    ∧ main.get_status now g
      = ((main.Status
            {| total_services := py.len (default [] (main.cfg_services config));
               up := 0;
               down := py.len (default [] (main.cfg_services config));
               last_check := None |}
            [] (main.stamp now)
            "Last known status - use /check to trigger a new check", 200), g).
Proof.
  intros Hreqs. exists (main.load config).
  split; [by apply serve_all_no_check|]. reflexivity.
Qed.

Lemma status_route_before_check_witness :
  Forall (λ rq, main.is_check rq.1 = false) Samples.requests
  ∧ ∃ g, main.serve_all Samples.requests (main.load Samples.config) = Some g
      ∧ main.get_status (Scenario.ten_o_clock + 9000000) g
        = ((main.Status (mkSummary 3 0 3 None) [] "2026-01-20T10:00:09Z"
              "Last known status - use /check to trigger a new check", 200), g).
Proof.
  assert (Forall (λ rq, main.is_check rq.1 = false) Samples.requests) as Hreqs
    by (repeat constructor).
  split; [exact Hreqs|].
  exact (status_route_before_check Samples.config Samples.requests
           (Scenario.ten_o_clock + 9000000) Hreqs).
Defined.

(** X11. The names [GET /] lists as monitored are, in the same order, the
    [service] fields of the results any [GET /check] answers with, whatever
    requests were answered before. *)
Theorem index_route_names (config : main.Config) (reqs : list (main.Request * Z))
    (g g' : main.Globals) (run : Run) (now now' : Z)
    (summary : Summary) (svcs : list ProbeResult) (ts : string) (code : Z) :
  main.serve_all reqs (main.load config) = Some g →
  main.check_services run now g = Some ((main.Check summary svcs ts, code), g') →
  ∃ endpoints,
    main.index now' g'
    = ((main.Index "Availability Checker Microservice" "1.0.0" endpoints
          (service <$> svcs)
          (default 60 (main.cfg_check_interval config))
          (main.stamp now'), 200), g').
Proof.
  intros Hserved Hcheck.
  apply serve_all_frame in Hserved as (Hcfg & Hsvcs & _). simpl in Hcfg, Hsvcs.
  assert (main.serve (main.GetCheck run) now g
          = Some ((main.Check summary svcs ts, code), g')) as Hframe by done.
  apply serve_frame in Hframe as (Hcfg' & _).
  unfold main.check_services in Hcheck.
  destruct (check_all_services (main.checker g) run) as [c|] eqn:Hc; [|done].
  apply check_all_services_returned in Hc as (_ & results & -> & Hlen & Hat).
  destruct (get_summary _) as [s chk2].
  injection Hcheck as _ <- _ _ _.
  unfold main.index. rewrite Hcfg', Hcfg, <- Hsvcs. eexists. do 3 f_equal.
  apply list_eq. intros i. rewrite !list_lookup_fmap.
  destruct (services (main.checker g) !! i) as [svc|] eqn:Hsvc; simpl.
  - destruct (Hat i svc Hsvc) as (r & -> & Hcheck). simpl.
    by apply check_service_well_formed in Hcheck as (_ & -> & _).
  - apply lookup_ge_None in Hsvc.
    rewrite (lookup_ge_None_2 results) by lia. done.
Qed.

Lemma index_route_names_witness :
  ∃ summary svcs g',
    main.serve_all Samples.requests (main.load Samples.config)
      = Some (main.load Samples.config)
    ∧ main.check_services (Scenario.run [1; 2; 0]%nat)
        (Scenario.ten_o_clock + 5000000) (main.load Samples.config)
      = Some ((main.Check summary svcs "2026-01-20T10:00:05Z", 200), g')
    ∧ service <$> svcs = ["A"; "B"; "C"]
    ∧ ∃ endpoints,
        main.index (Scenario.ten_o_clock + 9000000) g'
        = ((main.Index "Availability Checker Microservice" "1.0.0" endpoints
              (service <$> svcs) 60 "2026-01-20T10:00:09Z", 200), g').
Proof.
  eexists _, _, _.
  assert (main.serve_all Samples.requests (main.load Samples.config)
          = Some (main.load Samples.config)) as Hserved by reflexivity.
  assert (main.check_services (Scenario.run [1; 2; 0]%nat)
            (Scenario.ten_o_clock + 5000000) (main.load Samples.config)
          = Some ((main.Check _ _ "2026-01-20T10:00:05Z", 200), _)) as Hcheck
    by reflexivity.
  split; [exact Hserved|]. split; [exact Hcheck|]. split; [reflexivity|].
  exact (index_route_names _ _ _ _ _ _ (Scenario.ten_o_clock + 9000000)
           _ _ _ _ Hserved Hcheck).
Defined.

Lemma check_all_services_nil self run :
  services self = [] →
  check_all_services self run = Some (Return ([], mkChecker [] (timeout self) [])).
Proof.
  intros Hnil. unfold check_all_services, gather. rewrite Hnil. simpl.
  by rewrite (foldl_done_callback_settled _ _ _ (Return [])).
Qed.

(** X12. A configuration without services, the key missing or its list empty,
    is served: [GET /check] answers 200 with no result and a summary of
    zeros, whatever the network does, and leaves the globals as loaded. *)
Theorem check_route_no_services (config : main.Config) (run : Run) (now : Z) :
  default [] (main.cfg_services config) = [] →
  main.check_services run now (main.load config)
  = Some ((main.Check (mkSummary 0 0 0 None) [] (main.stamp now), 200),
          main.load config).
Proof.
  intros Hnone. unfold main.check_services, main.load. simpl.
  rewrite check_all_services_nil by (simpl; exact Hnone). simpl.
  unfold init. by rewrite Hnone.
Qed.

Lemma check_route_no_services_witness :
  default [] (main.cfg_services (main.mkConfig None None None)) = []
  ∧ main.check_services (Scenario.run [2; 0; 1]%nat) Scenario.ten_o_clock
      (main.load (main.mkConfig None None None))
    = Some ((main.Check (mkSummary 0 0 0 None) [] "2026-01-20T10:00:00Z", 200),
            main.load (main.mkConfig None None None)).
Proof.
  assert (default [] (main.cfg_services (main.mkConfig None None None)) = [])
    as Hnone by reflexivity.
  split; [exact Hnone|].
  exact (check_route_no_services _ (Scenario.run [2; 0; 1]%nat)
           Scenario.ten_o_clock Hnone).
Defined.
